(** * mcp_applemusic.py: query sanitisation and the AppleScript tools

    A shallow embedding of [src/mcp_applemusic.py].  Python strings are
    lists of Unicode code points; the handful of [str], [re] and
    [subprocess] operations the program calls are modelled in [Module Py];
    the program's own functions follow in [Module AppleMusic] under the
    names they have in the source. *)

From Stdlib Require Import NArith ZArith List Bool Lia String Ascii.
Import ListNotations.

Set Implicit Arguments.

(* ================================================================== *)
(** ** The fragment of Python the program uses *)
(* ================================================================== *)

Module Py.

(** A Python [str] is a sequence of code points. *)
Definition char := N.
Definition str := list char.

(** A source literal, written as a Rocq string of ASCII characters. *)
Fixpoint lit (s : string) : str :=
  match s with
  | EmptyString => []
  | String a r => N_of_ascii a :: lit r
  end.

(** Code points that cannot be written inside a Rocq string literal, or
    that the proofs name. *)
Definition DQUOTE : char := 34%N.     (* the double-quote character *)
Definition SQUOTE : char := 39%N.     (* ' *)
Definition BACKSLASH : char := 92%N.  (* \ *)
Definition dq : str := [DQUOTE].

(** The Unicode character database decides [\w], [\s] and [str.strip]
    outside ASCII.  It belongs to the interpreter, not to the program, and
    changes between Unicode versions, so it stays abstract: every result
    below holds for any database. *)
Class UnicodeDB := {
  uni_isalnum : char -> bool;   (* Py_UNICODE_ISALNUM on code points >= 128 *)
  uni_isspace : char -> bool    (* Py_UNICODE_ISSPACE on code points >= 128 *)
}.

(** A database with nothing outside ASCII; used to run examples. *)
Definition ascii_only : UnicodeDB :=
  {| uni_isalnum := fun _ => false; uni_isspace := fun _ => false |}.

Definition between (lo hi c : char) : bool := (lo <=? c)%N && (c <=? hi)%N.

(** ASCII whitespace as CPython has it: TAB LF VT FF CR, FS GS RS US, SPACE. *)
Definition ascii_isspace (c : char) : bool :=
  between 9%N 13%N c || between 28%N 31%N c || (c =? 32)%N.

(** ASCII letters and digits. *)
Definition ascii_isalnum (c : char) : bool :=
  between 48%N 57%N c || between 65%N 90%N c || between 97%N 122%N c.

Section Chars.
Context {U : UnicodeDB}.

Definition isspace (c : char) : bool :=
  if (c <? 128)%N then ascii_isspace c else uni_isspace c.

Definition isalnum (c : char) : bool :=
  if (c <? 128)%N then ascii_isalnum c else uni_isalnum c.

(** [\w] of a [str] pattern: alphanumeric or underscore. *)
Definition isword (c : char) : bool := isalnum c || (c =? 95)%N.
End Chars.

(** *** Exceptions *)

(** An excerpt of the built-in exception hierarchy, with the two library
    classes the program can meet. *)
Inductive exc_class :=
  | BaseException | Exception
  | KeyboardInterrupt | SystemExit
  | OSError | FileNotFoundError | PermissionError
  | ValueError | UnicodeDecodeError
  | SubprocessError | TimeoutExpired
  | ReError.

Definition parent (c : exc_class) : option exc_class :=
  match c with
  | BaseException => None
  | Exception | KeyboardInterrupt | SystemExit => Some BaseException
  | OSError | ValueError | SubprocessError | ReError => Some Exception
  | FileNotFoundError | PermissionError => Some OSError
  | UnicodeDecodeError => Some ValueError
  | TimeoutExpired => Some SubprocessError
  end.

Definition exc_class_eqb (a b : exc_class) : bool :=
  match a, b with
  | BaseException, BaseException | Exception, Exception
  | KeyboardInterrupt, KeyboardInterrupt | SystemExit, SystemExit
  | OSError, OSError | FileNotFoundError, FileNotFoundError
  | PermissionError, PermissionError | ValueError, ValueError
  | UnicodeDecodeError, UnicodeDecodeError
  | SubprocessError, SubprocessError | TimeoutExpired, TimeoutExpired
  | ReError, ReError => true
  | _, _ => false
  end.

(** [issubclass c k], walking up at most the depth of the hierarchy. *)
Fixpoint issubclass_upto (depth : nat) (c k : exc_class) : bool :=
  exc_class_eqb c k ||
  match depth, parent c with
  | S d, Some p => issubclass_upto d p k
  | _, _ => false
  end.

Definition issubclass : exc_class -> exc_class -> bool := issubclass_upto 3.

(** An exception object: its class and what [str(e)] gives. *)
Record exn := { exn_class : exc_class; exn_str : str }.

(** What a call yields: a value, or an exception on its way up. *)
Inductive result (A : Type) :=
  | Ok (a : A)
  | Raise (e : exn).
Arguments Ok {A} a.
Arguments Raise {A} e.

Definition bind {A B} (r : result A) (k : A -> result B) : result B :=
  match r with
  | Ok a => k a
  | Raise e => Raise e
  end.

(** A list comprehension whose element expression may raise. *)
Fixpoint mapM {A B} (f : A -> result B) (l : list A) : result (list B) :=
  match l with
  | [] => Ok []
  | x :: r => bind (f x) (fun y => bind (mapM f r) (fun ys => Ok (y :: ys)))
  end.

(** *** [str] methods *)

Fixpoint startswith (s p : str) {struct p} : bool :=
  match p, s with
  | [], _ => true
  | _ :: _, [] => false
  | a :: p', b :: s' => (a =? b)%N && startswith s' p'
  end.

(** [replace_from old new skip s]: the scan of [str.replace] for a
    non-empty [old], left to right over [s]; [skip] counts the characters
    still to pass of the occurrence found last, so occurrences never
    overlap. *)
Fixpoint replace_from (old new : str) (skip : nat) (s : str) : str :=
  match s with
  | [] => []
  | c :: s' =>
      match skip with
      | S k => replace_from old new k s'
      | O =>
          if startswith s old
          then new ++ replace_from old new (List.length old - 1) s'
          else c :: replace_from old new 0 s'
      end
  end.

(** [s.replace(old, new)].  An empty [old] matches between any two
    characters and at both ends. *)
Definition replace (s old new : str) : str :=
  match old with
  | [] => new ++ flat_map (fun c => c :: new) s
  | _ :: _ => replace_from old new 0 s
  end.

(** [s[:stop]]: a negative [stop] counts from the end. *)
Definition slice_to (s : str) (stop : Z) : str :=
  if (stop <? 0)%Z
  then firstn (Z.to_nat (Z.of_nat (List.length s) + stop)) s
  else firstn (Z.to_nat stop) s.

Section Strip.
Context {U : UnicodeDB}.

Fixpoint lstrip (s : str) : str :=
  match s with
  | [] => []
  | c :: s' => if isspace c then lstrip s' else s
  end.

Definition rstrip (s : str) : str := rev (lstrip (rev s)).

(** [s.strip()] *)
Definition strip (s : str) : str := rstrip (lstrip s).
End Strip.

(** [split_from sep skip cur s]: the scan of [str.split] for a non-empty
    [sep]; [cur] holds the piece being read, last character first. *)
Fixpoint split_from (sep : str) (skip : nat) (cur : str) (s : str) : list str :=
  match s with
  | [] => [rev cur]
  | c :: s' =>
      match skip with
      | S k => split_from sep k cur s'
      | O =>
          if startswith s sep
          then rev cur :: split_from sep (List.length sep - 1) [] s'
          else split_from sep 0 (c :: cur) s'
      end
  end.

(** [s.split(sep)] with a separator given. *)
Definition split (s sep : str) : result (list str) :=
  match sep with
  | [] => Raise {| exn_class := ValueError; exn_str := lit "empty separator" |}
  | _ :: _ => Ok (split_from sep 0 [] s)
  end.

(** [sep.join(l)] *)
Fixpoint join (sep : str) (l : list str) : str :=
  match l with
  | [] => []
  | [x] => x
  | x :: r => x ++ sep ++ join sep r
  end.

(** Truth value of a [str] or a [list]: non-empty. *)
Definition truthy {A} (l : list A) : bool :=
  match l with [] => false | _ :: _ => true end.

(** *** [re]: patterns that are one character class *)

Module re.

(** The members a class can list: [\w], [\s], or one character. *)
Inductive item := Word | Space | Chr (c : char).

Record char_class := { negated : bool; items : list item }.

(** ASCII punctuation: a backslash before one of these stands for the
    character itself. *)
Definition ascii_punct (c : char) : bool :=
  between 33%N 47%N c || between 58%N 64%N c ||
  between 91%N 96%N c || between 123%N 126%N c.

(** The members up to the closing bracket, which must end the pattern.
    Ranges and nested brackets are outside the fragment. *)
Fixpoint parse_items (p : str) : option (list item) :=
  match p with
  | [] => None
  | c :: p1 =>
      if (c =? 93)%N (* ] *) then
        match p1 with [] => Some [] | _ :: _ => None end
      else if (c =? 92)%N (* \ *) then
        match p1 with
        | [] => None
        | e :: p2 =>
            if (e =? 119)%N (* w *) then option_map (cons Word) (parse_items p2)
            else if (e =? 115)%N (* s *) then option_map (cons Space) (parse_items p2)
            else if ascii_punct e then option_map (cons (Chr e)) (parse_items p2)
            else None
        end
      else if (c =? 91)%N (* [ *) || (c =? 45)%N (* - *) then None
      else option_map (cons (Chr c)) (parse_items p1)
  end.

(** [re.compile] on this fragment: an opening bracket, an optional
    circumflex, at least one member, the closing bracket. *)
Definition compile (p : str) : option char_class :=
  match p with
  | [] => None
  | b :: p1 =>
      if negb (b =? 91)%N then None else
      let (neg, body) :=
        match p1 with
        | c :: p2 => if (c =? 94)%N (* ^ *) then (true, p2) else (false, p1)
        | [] => (false, p1)
        end in
      match parse_items body with
      | Some (i :: l) => Some {| negated := neg; items := i :: l |}
      | _ => None
      end
  end.

Section Match.
Context {U : UnicodeDB}.

Definition item_matches (i : item) (c : char) : bool :=
  match i with
  | Word => isword c
  | Space => isspace c
  | Chr k => (c =? k)%N
  end.

Definition class_matches (cc : char_class) (c : char) : bool :=
  xorb (negated cc) (existsb (fun i => item_matches i c) (items cc)).

(** [re.sub(pattern, repl, s)]: every character the class matches gives
    way to [repl].  A pattern outside the fragment, or a [repl] with a
    backslash in it (a template, not plain text), is refused. *)
Definition sub (pattern repl s : str) : result str :=
  match compile pattern with
  | None =>
      Raise {| exn_class := ReError; exn_str := lit "bad pattern" |}
  | Some cc =>
      if existsb (N.eqb BACKSLASH) repl
      then Raise {| exn_class := ReError; exn_str := lit "bad escape" |}
      else Ok (flat_map (fun c => if class_matches cc c then repl else [c]) s)
  end.
End Match.

End re.

(** *** Running a command, and the world it runs in *)

(** One [subprocess.run]: the argument vector and the time allowed. *)
Record call := { call_args : list str; call_timeout : Z }.

(** Commands run so far, oldest first. *)
Definition world := list call.

(** A computation that may run commands and may raise. *)
Definition IO (A : Type) := world -> result A * world.

Definition ret {A} (a : A) : IO A := fun w => (Ok a, w).

Definition raise {A} (e : exn) : IO A := fun w => (Raise e, w).

Definition bindIO {A B} (m : IO A) (k : A -> IO B) : IO B :=
  fun w =>
    match m w with
    | (Ok a, w') => k a w'
    | (Raise e, w') => (Raise e, w')
    end.

Definition liftR {A} (r : result A) : IO A := fun w => (r, w).

Notation "x <- m ;; k" := (bindIO m (fun x => k))
  (at level 61, m at next level, right associativity).

(** [try: body] followed by [except] clauses, tried in the order written:
    the first clause whose class the exception is an instance of handles
    it; with none, the exception goes on up. *)
Fixpoint handle {A} (clauses : list (exc_class * (exn -> IO A))) (e : exn) : IO A :=
  match clauses with
  | [] => raise e
  | (k, h) :: rest =>
      if issubclass (exn_class e) k then h e else handle rest e
  end.

Definition try_except {A} (body : IO A)
    (clauses : list (exc_class * (exn -> IO A))) : IO A :=
  fun w =>
    match body w with
    | (Ok a, w') => (Ok a, w')
    | (Raise e, w') => handle clauses e w'
    end.

Module subprocess.

Record CompletedProcess := { returncode : Z; stdout : str; stderr : str }.

(** The operating system: what running a command yields, given the
    commands run before it.  The program has no hold on it. *)
Definition os := world -> call -> result CompletedProcess.

(** [subprocess.run(args, capture_output=True, text=True, timeout=t)] *)
Definition run (sys : os) (args : list str) (timeout : Z) : IO CompletedProcess :=
  fun w =>
    let c := {| call_args := args; call_timeout := timeout |} in
    (sys w c, w ++ [c]).

End subprocess.

End Py.

(* ================================================================== *)
(** ** The program *)
(* ================================================================== *)

Module AppleMusic.
Import Py.

Definition nl : str := [10%N].

Section Program.
Context {U : UnicodeDB}.

(** [sanitize_query], lines 6-12. *)
Definition sanitize_query (query : str) : result str :=
  let query := replace query dq (BACKSLASH :: dq) in
  let query := replace query [SQUOTE] [BACKSLASH; SQUOTE] in
  bind (re.sub (lit "[^\w\s\-\.\(\)&]") [] query) (fun query =>
  Ok (slice_to query 100)).

Variable sys : subprocess.os.

(** [run_applescript], lines 15-30. *)
Definition run_applescript (script : str) : IO str :=
  try_except
    (result <- subprocess.run sys [lit "osascript"; lit "-e"; script] 30 ;;
     if negb (subprocess.returncode result =? 0)%Z
     then ret (lit "Error: " ++ strip (subprocess.stderr result))
     else ret (strip (subprocess.stdout result)))
    [ (TimeoutExpired,
        fun _ => ret (lit "Error: AppleScript execution timed out"));
      (Exception,
        fun e => ret (lit "Error: " ++ exn_str e)) ].

(** The f-string of [itunes_search], lines 72-81. *)
Definition itunes_search_script (sanitized_query : str) : str :=
  nl ++
  lit "    tell application " ++ dq ++ lit "Music" ++ dq ++ nl ++
  lit "        set trackList to every track whose name contains "
    ++ dq ++ sanitized_query ++ dq ++ nl ++
  lit "        set output to " ++ dq ++ dq ++ nl ++
  lit "        repeat with t in trackList" ++ nl ++
  lit "            set output to output & (name of t) & "
    ++ dq ++ lit " - " ++ dq ++ lit " & (artist of t) & linefeed" ++ nl ++
  lit "        end repeat" ++ nl ++
  lit "        return output" ++ nl ++
  lit "    end tell" ++ nl ++
  lit "    ".

(** [itunes_search], lines 66-82. *)
Definition itunes_search (query : str) : IO str :=
  sanitized_query <- liftR (sanitize_query query) ;;
  run_applescript (itunes_search_script sanitized_query).

(** The f-string of [itunes_create_playlist], lines 117-126. *)
Definition itunes_create_playlist_script (sanitized_name conditions : str) : str :=
  nl ++
  lit "    tell application " ++ dq ++ lit "Music" ++ dq ++ nl ++
  lit "        set newPlaylist to make new user playlist with properties {name:"
    ++ dq ++ sanitized_name ++ dq ++ lit "}" ++ nl ++
  lit "        set matchingTracks to every track whose ("
    ++ conditions ++ lit ")" ++ nl ++
  lit "        repeat with t in matchingTracks" ++ nl ++
  lit "            duplicate t to newPlaylist" ++ nl ++
  lit "        end repeat" ++ nl ++
  lit "        return " ++ dq ++ lit "Playlist " ++ [BACKSLASH] ++ dq
    ++ sanitized_name ++ [BACKSLASH] ++ dq ++ lit " created with " ++ dq
    ++ lit " & (count of tracks of newPlaylist) & " ++ dq
    ++ lit " tracks." ++ dq ++ nl ++
  lit "    end tell" ++ nl ++
  lit "    ".

(** [itunes_create_playlist], lines 103-127. *)
Definition itunes_create_playlist (name songs : str) : IO str :=
  pieces <- liftR (split songs (lit ",")) ;;
  song_list <- liftR (mapM (fun s => sanitize_query (strip s))
                           (filter (fun s => truthy (strip s)) pieces)) ;;
  if negb (truthy song_list) then ret (lit "No songs provided.") else
  let conditions :=
    join (lit " or ") (map (fun s => lit "name is " ++ dq ++ s ++ dq) song_list) in
  sanitized_name <- liftR (sanitize_query name) ;;
  run_applescript (itunes_create_playlist_script sanitized_name conditions).

(** [itunes_play], lines 37-41. *)
Definition itunes_play : IO str :=
  run_applescript (lit "tell application " ++ dq ++ lit "Music" ++ dq ++ lit " to play").

(** [itunes_pause], lines 44-48. *)
Definition itunes_pause : IO str :=
  run_applescript (lit "tell application " ++ dq ++ lit "Music" ++ dq ++ lit " to pause").

(** [itunes_next], lines 51-55. *)
Definition itunes_next : IO str :=
  run_applescript
    (lit "tell application " ++ dq ++ lit "Music" ++ dq ++ lit " to next track").

(** [itunes_previous], lines 58-62. *)
Definition itunes_previous : IO str :=
  run_applescript
    (lit "tell application " ++ dq ++ lit "Music" ++ dq ++ lit " to previous track").

(** The f-string of [itunes_play_song], lines 92-98. *)
Definition itunes_play_song_script (sanitized_song : str) : str :=
  nl ++
  lit "    tell application " ++ dq ++ lit "Music" ++ dq ++ nl ++
  lit "        set theTrack to first track whose name is "
    ++ dq ++ sanitized_song ++ dq ++ nl ++
  lit "        play theTrack" ++ nl ++
  lit "        return " ++ dq ++ lit "Now playing: " ++ dq
    ++ lit " & (name of theTrack) & " ++ dq ++ lit " by " ++ dq
    ++ lit " & (artist of theTrack)" ++ nl ++
  lit "    end tell" ++ nl ++
  lit "    ".

(** [itunes_play_song], lines 86-99. *)
Definition itunes_play_song (song : str) : IO str :=
  sanitized_song <- liftR (sanitize_query song) ;;
  run_applescript (itunes_play_song_script sanitized_song).

(** The script of [itunes_library], lines 135-141. *)
Definition itunes_library_script : str :=
  nl ++
  lit "    tell application " ++ dq ++ lit "Music" ++ dq ++ nl ++
  lit "        set totalTracks to count of every track" ++ nl ++
  lit "        set totalPlaylists to count of user playlists" ++ nl ++
  lit "        return " ++ dq ++ lit "Total tracks: " ++ dq
    ++ lit " & totalTracks & linefeed & " ++ dq ++ lit "Total playlists: " ++ dq
    ++ lit " & totalPlaylists" ++ nl ++
  lit "    end tell" ++ nl ++
  lit "    ".

(** [itunes_library], lines 131-142. *)
Definition itunes_library : IO str := run_applescript itunes_library_script.

(** The script of [itunes_current_song], lines 151-160. *)
Definition itunes_current_song_script : str :=
  nl ++
  lit "    tell application " ++ dq ++ lit "Music" ++ dq ++ nl ++
  lit "        if player state is playing then" ++ nl ++
  lit "            set currentTrack to current track" ++ nl ++
  lit "            return " ++ dq ++ lit "Now playing: " ++ dq
    ++ lit " & (name of currentTrack) & " ++ dq ++ lit " by " ++ dq
    ++ lit " & (artist of currentTrack) & " ++ dq ++ lit " from " ++ dq
    ++ lit " & (album of currentTrack)" ++ nl ++
  lit "        else" ++ nl ++
  lit "            return " ++ dq ++ lit "No track is currently playing" ++ dq ++ nl ++
  lit "        end if" ++ nl ++
  lit "    end tell" ++ nl ++
  lit "    ".

(** [itunes_current_song], lines 146-161. *)
Definition itunes_current_song : IO str :=
  run_applescript itunes_current_song_script.

(** The script of [itunes_all_songs], lines 171-180. *)
Definition itunes_all_songs_script : str :=
  nl ++
  lit "    tell application " ++ dq ++ lit "Music" ++ dq ++ nl ++
  lit "        set trackList to tracks 1 thru 100" ++ nl ++
  lit "        set output to " ++ dq ++ dq ++ nl ++
  lit "        repeat with t in trackList" ++ nl ++
  lit "            set output to output & (name of t) & "
    ++ dq ++ lit " - " ++ dq ++ lit " & (artist of t) & linefeed" ++ nl ++
  lit "        end repeat" ++ nl ++
  lit "        return output" ++ nl ++
  lit "    end tell" ++ nl ++
  lit "    ".

(** [itunes_all_songs], lines 165-181. *)
Definition itunes_all_songs : IO str := run_applescript itunes_all_songs_script.

(** The ten functions registered with [@mcp.tool()], lines 37-181: a
    request names one of them and gives its arguments. *)
Inductive request :=
  | Play | Pause | Next | Previous
  | Search (query : str)
  | PlaySong (song : str)
  | CreatePlaylist (name songs : str)
  | Library | CurrentSong | AllSongs.

Definition call_tool (r : request) : IO str :=
  match r with
  | Play => itunes_play
  | Pause => itunes_pause
  | Next => itunes_next
  | Previous => itunes_previous
  | Search query => itunes_search query
  | PlaySong song => itunes_play_song song
  | CreatePlaylist name songs => itunes_create_playlist name songs
  | Library => itunes_library
  | CurrentSong => itunes_current_song
  | AllSongs => itunes_all_songs
  end.

End Program.

End AppleMusic.

(* ================================================================== *)
(** ** The specification's reading of the sanitiser *)
(* ================================================================== *)

Module Spec.
Import Py.

Section Steps.
Context {U : UnicodeDB}.

(** The allowed set: word characters, whitespace, hyphen, period, open
    and close parenthesis, ampersand. *)
Definition allowed (c : char) : bool :=
  isword c || isspace c ||
  (c =? 45)%N || (c =? 46)%N || (c =? 40)%N || (c =? 41)%N || (c =? 38)%N.

(** Steps 1 and 2: a backslash goes in before every [q]. *)
Fixpoint escape (q : char) (s : str) : str :=
  match s with
  | [] => []
  | c :: r =>
      if (c =? q)%N then BACKSLASH :: c :: escape q r else c :: escape q r
  end.

(** Step 3: characters outside the allowed set go. *)
Fixpoint delete_disallowed (s : str) : str :=
  match s with
  | [] => []
  | c :: r => if allowed c then c :: delete_disallowed r else delete_disallowed r
  end.

(** Step 4: the first [n] characters. *)
Fixpoint truncate (n : nat) (s : str) : str :=
  match n, s with
  | S k, c :: r => c :: truncate k r
  | _, _ => []
  end.

Definition four_steps (s : str) : str :=
  truncate 100 (delete_disallowed (escape SQUOTE (escape DQUOTE s))).
End Steps.

Definition is_quote (c : char) : bool := (c =? DQUOTE)%N || (c =? SQUOTE)%N.

(** A quote is unescaped when no backslash stands right before it. *)
Fixpoint unescaped_quote (after_backslash : bool) (s : str) : bool :=
  match s with
  | [] => false
  | c :: r =>
      (is_quote c && negb after_backslash) || unescaped_quote (c =? BACKSLASH)%N r
  end.

Definition no_unescaped_quote (s : str) : Prop := unescaped_quote false s = false.

(** [q] occurs in [out] with a backslash right before it. *)
Definition occurs_escaped (q : char) (out : str) : Prop :=
  exists a b, out = a ++ BACKSLASH :: q :: b.

(** Quotes escaped, not stripped: every quote character of the input is
    found escaped in the output. *)
Definition quotes_kept_escaped (s out : str) : Prop :=
  forall q, is_quote q = true -> In q s -> occurs_escaped q out.

(** The sanitiser escapes quotes: its output has no unescaped quote and
    keeps every quote of the input, escaped. *)
Definition escapes_quotes {U : UnicodeDB} (s : str) : Prop :=
  exists out,
    AppleMusic.sanitize_query s = Ok out /\
    no_unescaped_quote out /\ quotes_kept_escaped s out.

(** No exception reaches the caller. *)
Definition returns {A} (r : result A * world) : Prop := exists a, fst r = Ok a.

(** [s.count(c)] for one character. *)
Fixpoint count (s : str) (c : char) : nat :=
  match s with
  | [] => 0
  | x :: r => (if (x =? c)%N then 1 else 0) + count r c
  end.

(** The one command the tools run: [osascript -e script], with 30
    seconds to finish. *)
Definition osascript (script : str) : call :=
  {| call_args := [lit "osascript"; lit "-e"; script]; call_timeout := 30 |}.

(** Empty or whitespace only. *)
Definition blank {U : UnicodeDB} (s : str) : bool := forallb isspace s.

(** [a] is [b] with some characters left out: same order, nothing new. *)
Inductive subsequence : str -> str -> Prop :=
  | sub_nil : subsequence [] []
  | sub_drop (c : char) (a b : str) : subsequence a b -> subsequence a (c :: b)
  | sub_keep (c : char) (a b : str) : subsequence a b -> subsequence (c :: a) (c :: b).

(** [a] is the beginning of [b]. *)
Definition prefix (a b : str) : Prop := exists rest, b = a ++ rest.

(** Neither the first nor the last character is whitespace. *)
Definition trimmed {U : UnicodeDB} (s : str) : Prop :=
  match s with
  | [] => True
  | c :: _ => isspace c = false /\ isspace (last s c) = false
  end.

End Spec.

(* ================================================================== *)
(** ** Operating systems to run the tools against *)
(* ================================================================== *)

Module Samples.
Import Py.

(** The command ends with the given exit code and output. *)
Definition exits_with (rc : Z) (out err : str) : subprocess.os :=
  fun _ _ =>
    Ok {| subprocess.returncode := rc;
          subprocess.stdout := out; subprocess.stderr := err |}.

(** There is no [osascript] to run. *)
Definition no_osascript : subprocess.os :=
  fun _ _ =>
    Raise {| exn_class := FileNotFoundError;
             exn_str := lit "[Errno 2] No such file or directory: 'osascript'" |}.

(** The command outlives the time it is given. *)
Definition too_slow : subprocess.os :=
  fun _ _ =>
    Raise {| exn_class := TimeoutExpired;
             exn_str := lit "Command timed out" |}.

(** The server is interrupted from the keyboard while the command runs. *)
Definition interrupted : subprocess.os :=
  fun _ _ => Raise {| exn_class := KeyboardInterrupt; exn_str := [] |}.

End Samples.

(* ================================================================== *)
(** ** Facts about the Python fragment *)
(* ================================================================== *)

Import Py.

(** Split a goal into its conjuncts. *)
Ltac conjuncts := repeat match goal with |- _ /\ _ => split end.

(** An equivalence is proved one way, then the other. *)
Ltac both_ways :=
  try match goal with
      | |- _ <-> _ => split; [intros ? | intros [? ?]]
      end.

(** Two results that are equal have the same shape and content. *)
Ltac same_result :=
  repeat match goal with
         | H : Ok _ = Ok _ |- _ => injection H as <-
         | H : Raise _ = Raise _ |- _ => injection H as <-
         | H : Ok _ = Raise _ |- _ => discriminate H
         | H : Raise _ = Ok _ |- _ => discriminate H
         end.

Lemma Ok_inj (A : Type) (a b : A) : Ok a = Ok b -> a = b.
Proof. intros H. now injection H. Qed.

Section ListFacts.
Variable A : Type.

Lemma filter_all (f : A -> bool) (l : list A) :
  Forall (fun x => f x = true) l -> filter f l = l.
Proof.
  induction 1 as [|x l Hx _ IH]; simpl; [reflexivity|].
  now rewrite Hx, IH.
Qed.

Lemma filter_sound (f : A -> bool) (l : list A) :
  Forall (fun x => f x = true) (filter f l).
Proof.
  apply Forall_forall. intros x Hin. now apply filter_In in Hin.
Qed.

Lemma Forall_firstn (P : A -> Prop) (n : nat) (l : list A) :
  Forall P l -> Forall P (firstn n l).
Proof.
  intros H. revert n. induction H; intros [|n]; simpl; auto.
Qed.

Lemma filter_flat_map (f : A -> bool) (g : A -> list A) (l : list A) :
  (forall x, filter f (g x) = if f x then [x] else []) ->
  filter f (flat_map g l) = filter f l.
Proof.
  intros Hg. induction l as [|x l IH]; simpl; [reflexivity|].
  rewrite filter_app, Hg, IH. now destruct (f x).
Qed.
End ListFacts.

Section ReplaceFacts.

(** With a pattern of one character, [replace] works character by
    character. *)
Lemma replace_one (c : char) (new s : str) :
  replace s [c] new = flat_map (fun x => if (x =? c)%N then new else [x]) s.
Proof.
  unfold replace. induction s as [|x s IH]; simpl; [reflexivity|].
  rewrite (N.eqb_sym c x), andb_true_r.
  destruct (x =? c)%N; simpl; now rewrite IH.
Qed.

Lemma slice_to_100 (s : str) : slice_to s 100 = firstn 100 s.
Proof. reflexivity. Qed.

End ReplaceFacts.

(* ================================================================== *)
(** ** The sanitiser *)
(* ================================================================== *)

Import AppleMusic Spec.

Section Sanitiser.
Context {U : UnicodeDB}.

(** The pattern of line 11 compiles, to the negated class of seven
    members. *)
Lemma pattern_compiles :
  re.compile (lit "[^\w\s\-\.\(\)&]") =
  Some {| re.negated := true;
          re.items := [re.Word; re.Space; re.Chr 45%N; re.Chr 46%N;
                       re.Chr 40%N; re.Chr 41%N; re.Chr 38%N] |}.
Proof. reflexivity. Qed.

(** What it matches is exactly what lies outside the allowed set. *)
Lemma pattern_matches_disallowed (c : char) :
  re.class_matches
    {| re.negated := true;
       re.items := [re.Word; re.Space; re.Chr 45%N; re.Chr 46%N;
                    re.Chr 40%N; re.Chr 41%N; re.Chr 38%N] |} c
  = negb (allowed c).
Proof.
  unfold re.class_matches, allowed; simpl.
  rewrite orb_false_r, !orb_assoc. reflexivity.
Qed.

Lemma sub_pattern (s : str) :
  re.sub (lit "[^\w\s\-\.\(\)&]") [] s = Ok (filter allowed s).
Proof.
  unfold re.sub. rewrite pattern_compiles. simpl existsb. cbv iota.
  f_equal. induction s as [|c s IH]; simpl; [reflexivity|].
  rewrite pattern_matches_disallowed, IH. now destruct (allowed c).
Qed.

Lemma backslash_disallowed : allowed BACKSLASH = false.
Proof. reflexivity. Qed.

Lemma quote_disallowed (c : char) : is_quote c = true -> allowed c = false.
Proof.
  unfold is_quote. intros H.
  apply orb_true_iff in H as [H|H]; apply N.eqb_eq in H; subst c; reflexivity.
Qed.

Lemma allowed_not_quote (c : char) : allowed c = true -> is_quote c = false.
Proof.
  intros Ha. destruct (is_quote c) eqn:Hq; [|reflexivity].
  apply quote_disallowed in Hq. congruence.
Qed.

(** Escaping a quote adds and removes nothing the filter keeps. *)
Lemma filter_escaped (q : char) (s : str) :
  is_quote q = true ->
  filter allowed (flat_map (fun x => if (x =? q)%N then [BACKSLASH; q] else [x]) s)
  = filter allowed s.
Proof.
  intros Hq. apply filter_flat_map. intros x.
  destruct (x =? q)%N eqn:E; cbn [filter].
  - apply N.eqb_eq in E; subst x.
    now rewrite backslash_disallowed, (quote_disallowed _ Hq).
  - now destruct (allowed x).
Qed.

(** The value [sanitize_query] returns, in closed form. *)
Lemma sanitize_query_eq (s : str) :
  sanitize_query s = Ok (firstn 100 (filter allowed s)).
Proof.
  unfold sanitize_query, dq.
  rewrite !replace_one, sub_pattern. cbn [bind]. rewrite slice_to_100.
  rewrite (filter_escaped SQUOTE), (filter_escaped DQUOTE); reflexivity.
Qed.

Lemma sanitized_allowed (s : str) :
  Forall (fun c => allowed c = true) (firstn 100 (filter allowed s)).
Proof. apply Forall_firstn, filter_sound. Qed.

Lemma allowed_excludes (c : char) (l : str) :
  allowed c = false -> Forall (fun x => allowed x = true) l -> ~ In c l.
Proof.
  intros Hc Hl Hin. rewrite Forall_forall in Hl.
  specialize (Hl _ Hin). congruence.
Qed.

(** The three steps as the specification words them are the library
    calls of the source. *)
Lemma escape_is_replace (q : char) (s : str) :
  replace s [q] [BACKSLASH; q] = escape q s.
Proof.
  rewrite replace_one. induction s as [|c s IH]; simpl; [reflexivity|].
  rewrite IH. destruct (c =? q)%N eqn:E; [|reflexivity].
  apply N.eqb_eq in E. now subst c.
Qed.

Lemma delete_disallowed_is_filter (s : str) :
  delete_disallowed s = filter allowed s.
Proof.
  induction s as [|c s IH]; simpl; [reflexivity|]. now rewrite IH.
Qed.

Lemma truncate_is_firstn (n : nat) (s : str) : truncate n s = firstn n s.
Proof.
  revert s. induction n as [|n IH]; intros [|c s]; simpl;
    try reflexivity; now rewrite IH.
Qed.

(** Deleting the quotes first changes nothing the filter keeps. *)
Lemma filter_without_quotes (s : str) :
  filter allowed (filter (fun c => negb (is_quote c)) s) = filter allowed s.
Proof.
  induction s as [|c s IH]; simpl; [reflexivity|].
  destruct (is_quote c) eqn:E; simpl.
  - rewrite (quote_disallowed _ E). exact IH.
  - rewrite IH. reflexivity.
Qed.

Lemma filter_disallowed_only (s : str) :
  filter allowed (filter (fun c => negb (allowed c)) s) = [].
Proof.
  induction s as [|c s IH]; simpl; [reflexivity|].
  destruct (allowed c) eqn:E; simpl; [exact IH|].
  now rewrite E.
Qed.

Lemma no_quote_no_unescaped (s : str) (b : bool) :
  Forall (fun c => is_quote c = false) s -> unescaped_quote b s = false.
Proof.
  intros H. revert b. induction H as [|c s Hc _ IH]; intros b; simpl.
  - reflexivity.
  - now rewrite Hc, IH.
Qed.

End Sanitiser.

Section SanitiserProperties.
Context {U : UnicodeDB}.

(** C1.  Every character of [sanitize_query s] is in the allowed set
    (a word character, whitespace, or one of [- . ( ) &]); so the output
    holds no double quote, no single quote and no backslash. *)
Theorem sanitize_query_allowed (s : str) :
  exists out,
    sanitize_query s = Ok out /\
    Forall (fun c => allowed c = true) out /\
    ~ In DQUOTE out /\ ~ In SQUOTE out /\ ~ In BACKSLASH out.
Proof.
  exists (firstn 100 (filter allowed s)).
  pose proof (sanitized_allowed s) as Hall.
  split; [apply sanitize_query_eq|].
  split; [exact Hall|].
  repeat split; (apply allowed_excludes; [reflexivity | exact Hall]).
Qed.

(** C2.  [sanitize_query s] is at most 100 characters long, and a longer
    input is cut, not refused: the call returns, and what it returns is
    exactly the first 100 of the kept characters of [s] (all of them when
    there are no more than 100); on an input of allowed characters only,
    that is its first 100 characters. *)
Theorem sanitize_query_length (s : str) :
  exists out dropped,
    sanitize_query s = Ok out /\
    List.length out <= 100 /\
    out = firstn 100 (filter allowed s) /\
    List.length out = Nat.min 100 (List.length (filter allowed s)) /\
    filter allowed s = out ++ dropped /\
    dropped = skipn 100 (filter allowed s) /\
    (Forall (fun c => allowed c = true) s -> out = firstn 100 s).
Proof.
  exists (firstn 100 (filter allowed s)), (skipn 100 (filter allowed s)).
  split; [apply sanitize_query_eq|].
  split; [apply firstn_le_length|].
  split; [reflexivity|].
  split; [apply length_firstn|].
  split; [symmetry; apply firstn_skipn|].
  split; [reflexivity|].
  intros Hall. now rewrite (filter_all _ Hall).
Qed.

(** What becomes of quotes as the code stands.  [sanitize_query s] holds
    no quote and no backslash at all: the quotes of the input go with the
    backslashes put before them, and the output is that of [s] with its
    quote characters deleted. *)
Theorem sanitize_query_strips_quotes (s : str) :
  exists out,
    sanitize_query s = Ok out /\
    no_unescaped_quote out /\
    Forall (fun c => is_quote c = false) out /\
    ~ In BACKSLASH out /\
    sanitize_query (filter (fun c => negb (is_quote c)) s) = Ok out.
Proof.
  exists (firstn 100 (filter allowed s)).
  pose proof (sanitized_allowed s) as Hall.
  assert (Hq : Forall (fun c => is_quote c = false) (firstn 100 (filter allowed s))).
  { eapply Forall_impl; [|exact Hall]. apply allowed_not_quote. }
  split; [apply sanitize_query_eq|].
  split; [now apply no_quote_no_unescaped|].
  split; [exact Hq|].
  split; [apply allowed_excludes; [reflexivity | exact Hall]|].
  now rewrite sanitize_query_eq, filter_without_quotes.
Qed.

(** C4.  On the input [He said ] followed by [hi] in double quotes, the
    two [replace] calls put a backslash before each of the two quotes, and
    [sanitize_query] returns [He said hi]: the filter has taken the quotes
    and the backslashes alike. *)
Theorem sanitize_query_he_said_hi :
  let input := lit "He said " ++ dq ++ lit "hi" ++ dq in
  replace (replace input dq (BACKSLASH :: dq)) [SQUOTE] [BACKSLASH; SQUOTE]
    = lit "He said " ++ [BACKSLASH] ++ dq ++ lit "hi" ++ [BACKSLASH] ++ dq /\
  sanitize_query input = Ok (lit "He said hi").
Proof. split; reflexivity. Qed.

(** C5.  [sanitize_query] is idempotent: applied to its own result it
    returns that result. *)
Theorem sanitize_query_idempotent (s : str) :
  bind (sanitize_query s) sanitize_query = sanitize_query s.
Proof.
  rewrite sanitize_query_eq. cbn [bind]. rewrite sanitize_query_eq.
  rewrite (filter_all _ (sanitized_allowed s)), firstn_firstn.
  reflexivity.
Qed.

(** C6.  [sanitize_query] is the four steps in their order: a backslash
    before every double quote, a backslash before every single quote,
    deletion of what lies outside the allowed set, the first 100
    characters; and the deletion takes every backslash with it. *)
Theorem sanitize_query_four_steps (s : str) :
  sanitize_query s = Ok (four_steps s) /\
  ~ In BACKSLASH (delete_disallowed (escape SQUOTE (escape DQUOTE s))).
Proof.
  split.
  - unfold sanitize_query, four_steps, dq.
    change (BACKSLASH :: [DQUOTE]) with [BACKSLASH; DQUOTE].
    rewrite !escape_is_replace, sub_pattern. cbn [bind].
    rewrite slice_to_100, delete_disallowed_is_filter.
    exact (f_equal Ok (eq_sym (truncate_is_firstn _ _))).
  - rewrite delete_disallowed_is_filter.
    apply allowed_excludes; [reflexivity | apply filter_sound].
Qed.

(** C7.  [sanitize_query] returns a string on every string and touches
    nothing: run inside a tool it leaves the world as it was.  The empty
    string gives the empty string, a string none of whose characters is
    allowed gives the empty string, and no result is longer than 100
    characters or than the input. *)
Theorem sanitize_query_total (s : str) (w : world) :
  (exists out,
     sanitize_query s = Ok out /\
     liftR (sanitize_query s) w = (Ok out, w) /\
     List.length out <= Nat.min 100 (List.length s)) /\
  sanitize_query [] = Ok [] /\
  sanitize_query (filter (fun c => negb (allowed c)) s) = Ok [].
Proof.
  split; [|split].
  - exists (firstn 100 (filter allowed s)).
    split; [apply sanitize_query_eq|].
    split; [unfold liftR; now rewrite sanitize_query_eq|].
    rewrite length_firstn.
    pose proof (filter_length_le allowed s). lia.
  - reflexivity.
  - now rewrite sanitize_query_eq, filter_disallowed_only.
Qed.

End SanitiserProperties.

(** The properties the specification lists for testing (section 8),
    whatever the Unicode database. *)
Section Runs.
Context {U : UnicodeDB}.

Example sanitize_query_empty : sanitize_query [] = Ok [].
Proof. reflexivity. Qed.

Example sanitize_query_rock :
  sanitize_query (lit "Rock & Roll (Live)") = Ok (lit "Rock & Roll (Live)").
Proof. reflexivity. Qed.

Example sanitize_query_150 :
  sanitize_query (repeat 97%N 150) = Ok (repeat 97%N 100).
Proof. rewrite sanitize_query_eq. reflexivity. Qed.

Example sanitize_query_apostrophe :
  sanitize_query (lit "Don't Stop") = Ok (lit "Dont Stop").
Proof. reflexivity. Qed.

(** The scans of [replace] and [split] on patterns longer than one
    character: occurrences are taken leftmost first and do not overlap. *)
Example replace_aaa : replace (lit "aaa") (lit "aa") (lit "b") = lit "ba".
Proof. reflexivity. Qed.

Example replace_empty_pattern : replace (lit "ab") [] (lit "-") = lit "-a-b-".
Proof. reflexivity. Qed.

Example split_commas :
  split (lit "a,,b c,") (lit ",") = Ok [lit "a"; []; lit "b c"; []].
Proof. reflexivity. Qed.

Example split_longer_separator :
  split (lit "a, b, c") (lit ", ") = Ok [lit "a"; lit "b"; lit "c"].
Proof. reflexivity. Qed.

Example strip_both_ends : strip (lit "  Now playing  ") = lit "Now playing".
Proof. reflexivity. Qed.

Example slice_from_the_end : slice_to (lit "abcde") (-2) = lit "abc".
Proof. reflexivity. Qed.
End Runs.

Lemma in_middle (A : Type) (x : A) (a b l : list A) :
  l = a ++ x :: b -> In x l.
Proof. intros ->. apply in_elt. Qed.

(** On [He said ] followed by [hi] in double quotes the sanitiser does
    not escape quotes: the double quote of the input is nowhere in the
    output, escaped or not. *)
Lemma quotes_not_kept_escaped :
  ~ escapes_quotes (U := ascii_only) (lit "He said " ++ dq ++ lit "hi" ++ dq).
Proof.
  intros [out [Hout [_ Hkeep]]].
  change (Ok (lit "He said hi") = Ok out) in Hout.
  injection Hout as <-.
  destruct (Hkeep DQUOTE eq_refl) as [a [b Hab]].
  - apply in_or_app. right. left. reflexivity.
  - apply in_middle in Hab. simpl in Hab.
    repeat (destruct Hab as [Hab|Hab]; [discriminate Hab|]).
    exact Hab.
Qed.

(** C3.  The escaping of lines 9-10 is undone by line 11.  On [He said ]
    followed by [hi] in double quotes, whatever the Unicode database: the
    two [replace] calls do put a backslash before each quote, the value
    returned is [He said hi], and in it the double quote of the input is
    not found escaped, so the sanitiser does not do what the claim says;
    the same holds of the one-character input made of a double quote,
    which comes out empty. *)
Theorem sanitize_query_escape_undone (U : UnicodeDB) :
  let input := lit "He said " ++ dq ++ lit "hi" ++ dq in
  replace (replace input dq (BACKSLASH :: dq)) [SQUOTE] [BACKSLASH; SQUOTE]
    = lit "He said " ++ [BACKSLASH] ++ dq ++ lit "hi" ++ [BACKSLASH] ++ dq /\
  occurs_escaped DQUOTE
    (replace (replace input dq (BACKSLASH :: dq)) [SQUOTE] [BACKSLASH; SQUOTE]) /\
  sanitize_query input = Ok (lit "He said hi") /\
  ~ quotes_kept_escaped input (lit "He said hi") /\
  ~ escapes_quotes input /\
  sanitize_query dq = Ok [] /\
  ~ escapes_quotes dq.
Proof.
  intros input.
  assert (Hlost : ~ quotes_kept_escaped input (lit "He said hi")).
  { intros Hkeep.
    destruct (Hkeep DQUOTE eq_refl) as [a [b Hab]].
    - apply in_or_app. right. left. reflexivity.
    - apply in_middle in Hab. simpl in Hab.
      repeat (destruct Hab as [Hab|Hab]; [discriminate Hab|]).
      exact Hab. }
  split; [reflexivity|].
  split; [exists (lit "He said "), (lit "hi" ++ [BACKSLASH] ++ dq); reflexivity|].
  split; [reflexivity|].
  split; [exact Hlost|].
  split.
  { intros [out [Hout [_ Hkeep]]].
    change (Ok (lit "He said hi") = Ok out) in Hout.
    apply Ok_inj in Hout. subst out. exact (Hlost Hkeep). }
  split; [reflexivity|].
  intros [out [Hout [_ Hkeep]]].
  change (Ok [] = Ok out) in Hout. apply Ok_inj in Hout. subst out.
  destruct (Hkeep DQUOTE eq_refl) as [a [b Hab]]; [now left|].
  now destruct a.
Qed.

(* ================================================================== *)
(** ** The tools *)
(* ================================================================== *)

Import Samples.

Lemma subclass_of_TimeoutExpired (k : exc_class) :
  issubclass k TimeoutExpired = true <-> k = TimeoutExpired.
Proof. destruct k; split; intros H; try reflexivity; discriminate H. Qed.

Lemma lstrip_blank {U : UnicodeDB} (s : str) : blank s = true -> lstrip s = [].
Proof.
  unfold blank. induction s as [|c s IH]; simpl; [reflexivity|].
  intros H. apply andb_true_iff in H as [Hc Hs]. rewrite Hc. now apply IH.
Qed.

Lemma strip_blank {U : UnicodeDB} (s : str) : blank s = true -> strip s = [].
Proof. intros H. unfold strip. now rewrite (lstrip_blank _ H). Qed.

Lemma count_app (a b : str) (c : char) :
  count (a ++ b) c = count a c + count b c.
Proof. induction a as [|x a IH]; simpl; [reflexivity|]. rewrite IH. lia. Qed.

Lemma count_absent (s : str) (c : char) : ~ In c s -> count s c = 0.
Proof.
  induction s as [|x s IH]; simpl; [reflexivity|].
  intros H. destruct (x =? c)%N eqn:E.
  - apply N.eqb_eq in E. exfalso. apply H. now left.
  - apply IH. intros Hin. apply H. now right.
Qed.

Section Tools.
Context {U : UnicodeDB}.
Variable sys : subprocess.os.

(** Whatever comes of it, [run_applescript] runs one command. *)
Lemma run_applescript_runs_once (script : str) (w : world) :
  snd (run_applescript sys script w) = w ++ [osascript script].
Proof.
  unfold run_applescript, try_except, bindIO, subprocess.run.
  fold (osascript script).
  destruct (sys w (osascript script)) as [p|e].
  - now destruct (negb (subprocess.returncode p =? 0)%Z).
  - cbn [handle].
    destruct (issubclass (exn_class e) TimeoutExpired); [reflexivity|].
    now destruct (issubclass (exn_class e) Exception).
Qed.

(** C8, as the code has it.  [run_applescript script] runs [osascript -e
    script] once, allowing it 30 seconds, and returns: the standard
    output, stripped, on exit code 0; [Error: ] and the stripped
    standard error on any other exit code; a fixed timeout message when
    the run times out; [Error: ] and the exception's text on any other
    exception of class [Exception].  An exception reaches the caller
    exactly when the run raised it and it is outside [Exception]: such a
    one is not caught, every other is. *)
Theorem run_applescript_replies (script : str) (w : world) :
  let c := osascript script in
  let r := run_applescript sys script w in
  snd r = w ++ [c] /\
  (forall p, sys w c = Ok p -> subprocess.returncode p = 0%Z ->
     fst r = Ok (strip (subprocess.stdout p))) /\
  (forall p, sys w c = Ok p -> subprocess.returncode p <> 0%Z ->
     fst r = Ok (lit "Error: " ++ strip (subprocess.stderr p))) /\
  (forall e, sys w c = Raise e -> exn_class e = TimeoutExpired ->
     fst r = Ok (lit "Error: AppleScript execution timed out")) /\
  (forall e, sys w c = Raise e -> exn_class e <> TimeoutExpired ->
     issubclass (exn_class e) Exception = true ->
     fst r = Ok (lit "Error: " ++ exn_str e)) /\
  (forall e, fst r = Raise e <->
     sys w c = Raise e /\ issubclass (exn_class e) Exception = false).
Proof.
  intros c r. subst r.
  unfold run_applescript, try_except, bindIO, subprocess.run.
  fold (osascript script). fold c. clearbody c.
  destruct (sys w c) as [p|e] eqn:Hsys.
  - destruct (Z.eqb_spec (subprocess.returncode p) 0) as [Hrc|Hrc];
      cbn [negb fst snd ret handle]; conjuncts; intros; both_ways;
      same_result; solve [reflexivity | contradiction].
  - cbn [handle].
    destruct (issubclass (exn_class e) TimeoutExpired) eqn:Ht.
    + apply subclass_of_TimeoutExpired in Ht.
      cbn [fst snd ret]; conjuncts; intros; both_ways; same_result;
        try solve [reflexivity | contradiction].
      rewrite Ht in *. discriminate.
    + assert (Hne : exn_class e <> TimeoutExpired).
      { intros Heq. apply subclass_of_TimeoutExpired in Heq. congruence. }
      destruct (issubclass (exn_class e) Exception) eqn:He;
        cbn [fst snd ret raise]; conjuncts; intros; both_ways; same_result;
        solve [reflexivity | contradiction | congruence | now split].
Qed.

End Tools.

(** [run_applescript_replies] at work: exit code 1 with [ no track ] on
    standard error. *)
Lemma run_applescript_replies_witness :
  exits_with 1 [] (lit " no track ") [] (osascript (lit "beep"))
    = Ok {| subprocess.returncode := 1; subprocess.stdout := [];
            subprocess.stderr := lit " no track " |} /\
  fst (run_applescript (U := ascii_only) (exits_with 1 [] (lit " no track "))
         (lit "beep") [])
    = Ok (lit "Error: no track").
Proof.
  split; [reflexivity|].
  pose proof (run_applescript_replies (U := ascii_only)
                (exits_with 1 [] (lit " no track ")) (lit "beep") [])
    as [_ [_ [Herr _]]].
  apply (Herr _ eq_refl). discriminate.
Defined.

(** The four replies of [run_applescript], one sample system each. *)
Example run_applescript_success :
  run_applescript (U := ascii_only) (exits_with 0 (lit "Song - Artist" ++ nl) [])
    (lit "beep") []
  = (Ok (lit "Song - Artist"), [osascript (lit "beep")]).
Proof. reflexivity. Qed.

Example run_applescript_failure :
  run_applescript (U := ascii_only) (exits_with 1 [] (lit "syntax error" ++ nl))
    (lit "beep") []
  = (Ok (lit "Error: syntax error"), [osascript (lit "beep")]).
Proof. reflexivity. Qed.

Example run_applescript_timeout :
  run_applescript (U := ascii_only) too_slow (lit "beep") []
  = (Ok (lit "Error: AppleScript execution timed out"), [osascript (lit "beep")]).
Proof. reflexivity. Qed.

Example run_applescript_no_interpreter :
  run_applescript (U := ascii_only) no_osascript (lit "beep") []
  = (Ok (lit "Error: [Errno 2] No such file or directory: 'osascript'"),
     [osascript (lit "beep")]).
Proof. reflexivity. Qed.

(** C8, as stated, fails when the server is interrupted during the run:
    [KeyboardInterrupt] is no [Exception], neither clause takes it, and
    it reaches the caller. *)
Lemma run_applescript_can_raise :
  ~ returns (run_applescript (U := ascii_only) interrupted (lit "beep") []).
Proof. intros [out Hout]. discriminate Hout. Qed.

Section Playlist.
Context {U : UnicodeDB}.
Variable sys : subprocess.os.

Lemma no_blank_piece_kept (pieces : list str) :
  Forall (fun p => blank p = true) pieces ->
  filter (fun s => truthy (strip s)) pieces = [].
Proof.
  induction 1 as [|p l Hp _ IH]; simpl; [reflexivity|].
  now rewrite (strip_blank _ Hp).
Qed.

Lemma blank_rev (s : str) : blank (rev s) = blank s.
Proof.
  unfold blank. induction s as [|c s IH]; simpl; [reflexivity|].
  rewrite forallb_app, IH. simpl. rewrite andb_true_r. apply andb_comm.
Qed.

(** The pieces between commas are all blank exactly when the string is
    made of commas and whitespace. *)
Lemma blank_pieces (s cur : str) :
  Forall (fun p => blank p = true) (split_from (lit ",") 0 cur s) <->
  blank cur = true /\ Forall (fun c => c = 44%N \/ isspace c = true) s.
Proof.
  revert cur. induction s as [|c s IH]; intros cur.
  - simpl. rewrite Forall_cons_iff, blank_rev.
    split; [intros [H _] | intros [H _]]; split; auto.
  - cbn [split_from]. change (startswith (c :: s) (lit ","))
      with ((44 =? c)%N && true). rewrite andb_true_r.
    rewrite Forall_cons_iff.
    destruct (N.eqb_spec 44 c) as [<-|Hne].
    + cbn [lit List.length Nat.sub].
      rewrite Forall_cons_iff, blank_rev, IH.
      split; [intros [Hc [_ Hs]] | intros [Hc [_ Hs]]]; repeat split; auto.
    + rewrite IH. unfold blank at 1. cbn [forallb].
      rewrite andb_true_iff. fold (blank cur).
      split.
      * intros [[Hc Hcur] Hs]. repeat split; auto.
      * intros [Hcur [[Hc|Hc] Hs]]; [congruence|]. repeat split; auto.
Qed.

(** C9.  When every comma-separated piece of [songs] is empty or
    whitespace only, [itunes_create_playlist name songs] returns
    [No songs provided.] whatever [name] is, and runs no command: the
    world is as it was. *)
Theorem no_songs_provided (name songs : str) (w : world) (pieces : list str) :
  split songs (lit ",") = Ok pieces ->
  Forall (fun p => blank p = true) pieces ->
  itunes_create_playlist sys name songs w = (Ok (lit "No songs provided."), w).
Proof.
  intros Hsplit Hblank.
  unfold itunes_create_playlist, bindIO, liftR.
  rewrite Hsplit, (no_blank_piece_kept Hblank). reflexivity.
Qed.

(** C10.  The script [itunes_search] hands to [osascript] is the fixed
    template with the sanitised query between two of its double quotes;
    the sanitised query holds no double quote and no backslash, so the
    script has the template's eight double quotes and no other, and the
    literal the query sits in ends where the template ends it. *)
Theorem itunes_search_quoting :
  exists pre post : str,
  forall (query : str) (w : world),
  exists q,
    sanitize_query query = Ok q /\
    itunes_search sys query w = run_applescript sys (itunes_search_script q) w /\
    snd (itunes_search sys query w) = w ++ [osascript (itunes_search_script q)] /\
    itunes_search_script q = pre ++ dq ++ q ++ dq ++ post /\
    ~ In DQUOTE q /\ ~ In BACKSLASH q /\
    count (itunes_search_script q) DQUOTE = 8 /\
    count (itunes_search_script []) DQUOTE = 8.
Proof.
  exists (nl ++ lit "    tell application " ++ dq ++ lit "Music" ++ dq ++ nl ++
          lit "        set trackList to every track whose name contains ").
  eexists. intros query w.
  pose proof (sanitize_query_eq query) as Hq.
  pose proof (sanitized_allowed query) as Hall.
  set (q := firstn 100 (filter allowed query)) in *.
  assert (Hdq : ~ In DQUOTE q) by (now apply allowed_excludes).
  assert (Hbs : ~ In BACKSLASH q) by (now apply allowed_excludes).
  exists q. split; [exact Hq|].
  split; [unfold itunes_search, bindIO, liftR; now rewrite Hq|].
  split.
  { unfold itunes_search, bindIO, liftR. rewrite Hq.
    apply run_applescript_runs_once. }
  split.
  { unfold itunes_search_script. rewrite <- !app_assoc. reflexivity. }
  split; [exact Hdq|]. split; [exact Hbs|].
  split; [|reflexivity].
  unfold itunes_search_script.
  rewrite !count_app, (count_absent _ _ Hdq). reflexivity.
Qed.

(** So it is for the empty string, and for commas and blanks only. *)
Example no_songs_in_empty (name : str) (w : world) :
  itunes_create_playlist sys name [] w = (Ok (lit "No songs provided."), w).
Proof. reflexivity. Qed.

Lemma no_songs_in_commas_and_blanks (name songs : str) (w : world) :
  Forall (fun c => c = 44%N \/ isspace c = true) songs ->
  itunes_create_playlist sys name songs w = (Ok (lit "No songs provided."), w).
Proof.
  intros H.
  assert (Hb : Forall (fun p => blank p = true) (split_from (lit ",") 0 [] songs))
    by (apply blank_pieces; now split).
  unfold itunes_create_playlist, bindIO, liftR, split. cbn [lit].
  fold (lit ","). now rewrite (no_blank_piece_kept Hb).
Qed.

End Playlist.

(** [no_songs_provided] at work: blanks and commas only. *)
Lemma no_songs_provided_witness :
  split (lit " , ,") (lit ",") = Ok [lit " "; lit " "; []] /\
  Forall (fun p => blank (U := ascii_only) p = true) [lit " "; lit " "; []] /\
  itunes_create_playlist (U := ascii_only) no_osascript (lit "Mix") (lit " , ,") []
    = (Ok (lit "No songs provided."), []).
Proof.
  split; [reflexivity|].
  split; [repeat constructor|].
  apply (no_songs_provided (U := ascii_only) no_osascript (lit "Mix")
           (songs := lit " , ,") [] (pieces := [lit " "; lit " "; []])).
  - reflexivity.
  - repeat constructor.
Defined.

(* ================================================================== *)
(** ** More on the sanitiser *)
(* ================================================================== *)

Section SanitiserMore.
Context {U : UnicodeDB}.

Lemma subsequence_nil (s : str) : subsequence [] s.
Proof. induction s; constructor; assumption. Qed.

Lemma subsequence_kept (n : nat) (s : str) :
  subsequence (firstn n (filter allowed s)) s.
Proof.
  revert n. induction s as [|c s IH]; intros n; simpl.
  - rewrite firstn_nil. constructor.
  - destruct (allowed c).
    + destruct n as [|n]; simpl.
      * apply subsequence_nil.
      * apply sub_keep, IH.
    + apply sub_drop, IH.
Qed.

(** X1.  The strings [sanitize_query] returns unchanged are exactly those
    of at most 100 characters, all of them allowed. *)
Theorem sanitize_query_fixed_points (s : str) :
  sanitize_query s = Ok s <->
  Forall (fun c => allowed c = true) s /\ List.length s <= 100.
Proof.
  rewrite sanitize_query_eq. split.
  - intros H. apply Ok_inj in H. split.
    + rewrite <- H. apply sanitized_allowed.
    + rewrite <- H. apply firstn_le_length.
  - intros [Hall Hlen]. f_equal.
    rewrite (filter_all _ Hall). now apply firstn_all2.
Qed.

(** X2.  [sanitize_query] only deletes: its output is the input with some
    characters left out, the others in their order. *)
Theorem sanitize_query_subsequence (s : str) :
  exists out, sanitize_query s = Ok out /\ subsequence out s.
Proof.
  exists (firstn 100 (filter allowed s)).
  split; [apply sanitize_query_eq | apply subsequence_kept].
Qed.

(** X3.  Text added at the end of the input can only add at the end of
    the output: [sanitize_query a] is the beginning of
    [sanitize_query (a ++ b)]. *)
Theorem sanitize_query_prefix_monotone (a b : str) :
  exists out_a out_ab,
    sanitize_query a = Ok out_a /\
    sanitize_query (a ++ b) = Ok out_ab /\
    prefix out_a out_ab.
Proof.
  exists (firstn 100 (filter allowed a)), (firstn 100 (filter allowed (a ++ b))).
  split; [apply sanitize_query_eq|].
  split; [apply sanitize_query_eq|].
  exists (firstn (100 - List.length (filter allowed a)) (filter allowed b)).
  rewrite filter_app. apply firstn_app.
Qed.

(** X4.  The output has as many characters as the input has allowed
    ones, up to 100: it is shorter than 100 only when nothing was cut. *)
Theorem sanitize_query_length_exact (s : str) :
  exists out,
    sanitize_query s = Ok out /\
    List.length out = Nat.min 100 (List.length (filter allowed s)) /\
    (List.length out < 100 -> out = filter allowed s).
Proof.
  exists (firstn 100 (filter allowed s)).
  split; [apply sanitize_query_eq|].
  split; [apply length_firstn|].
  rewrite length_firstn. intros H. apply firstn_all2. lia.
Qed.

End SanitiserMore.

(* ================================================================== *)
(** ** More on [run_applescript] *)
(* ================================================================== *)

Section StripFacts.
Context {U : UnicodeDB}.

Lemma lstrip_cut (s : str) : exists a, s = a ++ lstrip s /\ blank a = true.
Proof.
  induction s as [|c s [a [Ha Hb]]]; simpl.
  - now exists [].
  - destruct (isspace c) eqn:E.
    + exists (c :: a). split; [simpl; now f_equal|].
      unfold blank in *. simpl. now rewrite E.
    + now exists [].
Qed.

Lemma lstrip_head (s : str) (c : char) (t : str) :
  lstrip s = c :: t -> isspace c = false.
Proof.
  induction s as [|x s IH]; simpl; [discriminate|].
  destruct (isspace x) eqn:E; [exact IH|].
  intros H. injection H as -> _. exact E.
Qed.

Lemma rstrip_cut (s : str) : exists b, s = rstrip s ++ b /\ blank b = true.
Proof.
  destruct (lstrip_cut (rev s)) as [a [Ha Hb]].
  exists (rev a). split.
  - unfold rstrip. rewrite <- rev_app_distr, <- Ha. symmetry. apply rev_involutive.
  - now rewrite blank_rev.
Qed.

Lemma rstrip_last (s : str) (d : char) :
  rstrip s <> [] -> isspace (last (rstrip s) d) = false.
Proof.
  unfold rstrip. destruct (lstrip (rev s)) as [|c t] eqn:E.
  - intros H. now elim H.
  - intros _. simpl. rewrite last_last. exact (lstrip_head _ E).
Qed.

Lemma strip_cut (s : str) :
  exists a b, s = a ++ strip s ++ b /\ blank a = true /\ blank b = true.
Proof.
  destruct (lstrip_cut s) as [a [Ha Hba]].
  destruct (rstrip_cut (lstrip s)) as [b [Hb Hbb]].
  exists a, b. split; [|now split].
  unfold strip. now rewrite <- Hb.
Qed.

Lemma strip_trimmed (s : str) : trimmed (strip s).
Proof.
  unfold trimmed. destruct (strip s) as [|c t] eqn:E; [exact I|].
  split.
  - destruct (rstrip_cut (lstrip s)) as [b [Hb _]].
    fold (strip s) in Hb. rewrite E in Hb. simpl in Hb.
    exact (lstrip_head _ Hb).
  - rewrite <- E. unfold strip. apply rstrip_last.
    fold (strip s). rewrite E. discriminate.
Qed.

End StripFacts.

Section RunMore.
Context {U : UnicodeDB}.
Variable sys : subprocess.os.

(** Shared with the tools: only an exception outside [Exception] leaves
    [run_applescript]. *)
Lemma run_applescript_raises_only_outside (script : str) (w : world) (e : exn) :
  fst (run_applescript sys script w) = Raise e ->
  issubclass (exn_class e) Exception = false.
Proof.
  unfold run_applescript, try_except, bindIO, subprocess.run.
  destruct (sys w _) as [p|x].
  - destruct (negb (subprocess.returncode p =? 0)%Z); discriminate.
  - cbn [handle].
    destruct (issubclass (exn_class x) TimeoutExpired); [discriminate|].
    destruct (issubclass (exn_class x) Exception) eqn:E; [discriminate|].
    cbn [raise fst]. intros H. injection H as <-. exact E.
Qed.

(** X5.  Unless the command ends with exit code 0, whatever
    [run_applescript] returns begins with [Error: ]. *)
Theorem run_applescript_error_prefix (script : str) (w : world) (out : str) :
  (forall p, sys w (osascript script) = Ok p -> subprocess.returncode p <> 0%Z) ->
  fst (run_applescript sys script w) = Ok out ->
  prefix (lit "Error: ") out.
Proof.
  intros Hfail.
  unfold run_applescript, try_except, bindIO, subprocess.run.
  fold (osascript script).
  destruct (sys w (osascript script)) as [p|x].
  - destruct (Z.eqb_spec (subprocess.returncode p) 0) as [Hz|Hnz].
    + now elim (Hfail p eq_refl).
    + cbn [negb ret fst]. intros H. apply Ok_inj in H. subst out.
      now exists (strip (subprocess.stderr p)).
  - cbn [handle].
    destruct (issubclass (exn_class x) TimeoutExpired).
    + cbn [ret fst]. intros H. apply Ok_inj in H. subst out.
      now exists (lit "AppleScript execution timed out").
    + destruct (issubclass (exn_class x) Exception).
      * cbn [ret fst]. intros H. apply Ok_inj in H. subst out.
        now exists (exn_str x).
      * discriminate.
Qed.

(** X6.  On exit code 0 the reply is the standard output with the
    whitespace at its two ends removed and nothing else: what is cut off
    on either side is blank, and the reply neither begins nor ends with
    whitespace. *)
Theorem run_applescript_success_trimmed (script : str) (w : world)
    (p : subprocess.CompletedProcess) :
  sys w (osascript script) = Ok p ->
  subprocess.returncode p = 0%Z ->
  exists reply a b,
    fst (run_applescript sys script w) = Ok reply /\
    subprocess.stdout p = a ++ reply ++ b /\
    blank a = true /\ blank b = true /\ trimmed reply.
Proof.
  intros Hsys Hrc.
  destruct (strip_cut (subprocess.stdout p)) as [a [b [Hab [Ha Hb]]]].
  exists (strip (subprocess.stdout p)), a, b.
  split.
  - unfold run_applescript, try_except, bindIO, subprocess.run.
    fold (osascript script). rewrite Hsys, Hrc. reflexivity.
  - split; [exact Hab|]. split; [exact Ha|]. split; [exact Hb|].
    apply strip_trimmed.
Qed.

End RunMore.

(** [run_applescript_error_prefix] at work: no interpreter to run. *)
Lemma run_applescript_error_prefix_witness :
  (forall p, no_osascript [] (osascript (lit "beep")) = Ok p ->
             subprocess.returncode p <> 0%Z) /\
  fst (run_applescript (U := ascii_only) no_osascript (lit "beep") [])
    = Ok (lit "Error: [Errno 2] No such file or directory: 'osascript'") /\
  prefix (lit "Error: ")
    (lit "Error: [Errno 2] No such file or directory: 'osascript'").
Proof.
  assert (H : forall p, no_osascript [] (osascript (lit "beep")) = Ok p ->
                        subprocess.returncode p <> 0%Z) by discriminate.
  split; [exact H|]. split; [reflexivity|].
  exact (run_applescript_error_prefix (U := ascii_only) no_osascript
           (lit "beep") [] H eq_refl).
Defined.

(** [run_applescript_success_trimmed] at work: a track name between a
    blank and a line end. *)
Lemma run_applescript_success_trimmed_witness :
  exists reply a b,
    fst (run_applescript (U := ascii_only)
           (exits_with 0 (lit " Song - Artist" ++ nl) []) (lit "beep") [])
      = Ok reply /\
    lit " Song - Artist" ++ nl = a ++ reply ++ b /\
    blank (U := ascii_only) a = true /\ blank (U := ascii_only) b = true /\
    trimmed (U := ascii_only) reply.
Proof.
  exact (run_applescript_success_trimmed (U := ascii_only)
           (exits_with 0 (lit " Song - Artist" ++ nl) []) (lit "beep") []
           eq_refl eq_refl).
Defined.

(* ================================================================== *)
(** ** More on the tools *)
(* ================================================================== *)

Section ToolsMore.
Context {U : UnicodeDB}.
Variable sys : subprocess.os.

Lemma blank_app (a b : str) : blank (a ++ b) = blank a && blank b.
Proof. apply forallb_app. Qed.

(** A piece survives the test [if s.strip()] exactly when it is not
    blank. *)
Lemma truthy_strip (p : str) : truthy (strip p) = negb (blank p).
Proof.
  destruct (blank p) eqn:E.
  - now rewrite (strip_blank _ E).
  - destruct (strip p) as [|c t] eqn:Es; [|reflexivity].
    destruct (strip_cut p) as [a [b [Hp [Ha Hb]]]].
    rewrite Es in Hp. simpl in Hp. rewrite Hp, blank_app, Ha, Hb in E.
    discriminate E.
Qed.

Lemma filter_truthy_strip (pieces : list str) :
  filter (fun s => truthy (strip s)) pieces
  = filter (fun s => negb (blank s)) pieces.
Proof. apply filter_ext. exact truthy_strip. Qed.

(** The comprehension of line 110 never raises. *)
Lemma song_list_eq (l : list str) :
  mapM (fun s => sanitize_query (strip s)) l
  = Ok (map (fun s => firstn 100 (filter allowed (strip s))) l).
Proof.
  induction l as [|p l IH]; [reflexivity|].
  cbn [mapM map]. rewrite sanitize_query_eq, IH. reflexivity.
Qed.

Lemma itunes_search_eq (query : str) (w : world) :
  itunes_search sys query w
  = run_applescript sys
      (itunes_search_script (firstn 100 (filter allowed query))) w.
Proof. unfold itunes_search, bindIO, liftR. now rewrite sanitize_query_eq. Qed.

Lemma itunes_play_song_eq (song : str) (w : world) :
  itunes_play_song sys song w
  = run_applescript sys
      (itunes_play_song_script (firstn 100 (filter allowed song))) w.
Proof. unfold itunes_play_song, bindIO, liftR. now rewrite sanitize_query_eq. Qed.

(** [itunes_create_playlist] in closed form: the non-blank pieces,
    stripped and sanitised, in their order. *)
Lemma itunes_create_playlist_eq (name songs : str) (w : world) :
  itunes_create_playlist sys name songs w
  = match filter (fun s => negb (blank s)) (split_from (lit ",") 0 [] songs) with
    | [] => (Ok (lit "No songs provided."), w)
    | p :: l =>
        run_applescript sys
          (itunes_create_playlist_script
             (firstn 100 (filter allowed name))
             (join (lit " or ")
                (map (fun s => lit "name is " ++ dq ++ s ++ dq)
                   (map (fun s => firstn 100 (filter allowed (strip s)))
                      (p :: l))))) w
    end.
Proof.
  unfold itunes_create_playlist, bindIO, liftR, split. cbn [lit].
  fold (lit ","). rewrite filter_truthy_strip, song_list_eq.
  destruct (filter _ _) as [|p l]; [reflexivity|].
  cbn [map truthy negb]. now rewrite sanitize_query_eq.
Qed.

(** X7.  The script [itunes_play_song] hands to [osascript] is its fixed
    template with the sanitised song name between two double quotes; the
    name holds no double quote and no backslash, so the script has the
    template's eight double quotes and the literal ends where the
    template ends it. *)
Theorem itunes_play_song_quoting :
  exists pre post : str,
  forall (song : str) (w : world),
  exists q,
    sanitize_query song = Ok q /\
    itunes_play_song sys song w = run_applescript sys (itunes_play_song_script q) w /\
    snd (itunes_play_song sys song w) = w ++ [osascript (itunes_play_song_script q)] /\
    itunes_play_song_script q = pre ++ dq ++ q ++ dq ++ post /\
    ~ In DQUOTE q /\ ~ In BACKSLASH q /\
    count (itunes_play_song_script q) DQUOTE = 8 /\
    count (itunes_play_song_script q) BACKSLASH = 0.
Proof.
  exists (nl ++ lit "    tell application " ++ dq ++ lit "Music" ++ dq ++ nl ++
          lit "        set theTrack to first track whose name is ").
  eexists. intros song w.
  pose proof (sanitized_allowed song) as Hall.
  set (q := firstn 100 (filter allowed song)) in *.
  assert (Hdq : ~ In DQUOTE q) by (now apply allowed_excludes).
  assert (Hbs : ~ In BACKSLASH q) by (now apply allowed_excludes).
  exists q. split; [apply sanitize_query_eq|].
  split; [apply itunes_play_song_eq|].
  split; [rewrite itunes_play_song_eq; apply run_applescript_runs_once|].
  split.
  { unfold itunes_play_song_script. rewrite <- !app_assoc. reflexivity. }
  split; [exact Hdq|]. split; [exact Hbs|].
  unfold itunes_play_song_script.
  rewrite !count_app, (count_absent _ _ Hdq), (count_absent _ _ Hbs).
  split; reflexivity.
Qed.

(** X8.  A query with no allowed character, the empty one included, is
    not refused: [itunes_search] runs the search for the empty string. *)
Theorem itunes_search_nothing_allowed (query : str) (w : world) :
  Forall (fun c => allowed c = false) query ->
  itunes_search sys query w = run_applescript sys (itunes_search_script []) w.
Proof.
  intros H. rewrite itunes_search_eq.
  replace (filter allowed query) with (@nil char); [reflexivity|].
  induction H as [|c l Hc _ IH]; simpl; [reflexivity|]. now rewrite Hc.
Qed.

End ToolsMore.

Section PlaylistMore.
Context {U : UnicodeDB}.
Variable sys : subprocess.os.

Lemma not_blank_filter (pieces : list str) :
  Forall (fun p => blank p = true) pieces <->
  filter (fun s => negb (blank s)) pieces = [].
Proof.
  induction pieces as [|p l IH]; simpl.
  - split; constructor.
  - rewrite Forall_cons_iff, IH.
    destruct (blank p); simpl; split; try tauto; try discriminate.
    intros [H _]. discriminate H.
Qed.

Lemma one_more_is_more (A : Type) (w : list A) (c : A) : w ++ [c] <> w.
Proof.
  intros H. apply (f_equal (@List.length A)) in H.
  rewrite length_app in H. simpl in H. lia.
Qed.

Lemma single_inj (A : Type) (a b : A) : [a] = [b] -> a = b.
Proof. intros H. now injection H. Qed.

(** Counting a character in a joined list whose members all have [k] of
    it and whose separator has none. *)
Lemma count_join (sep : str) (l : list str) (c : char) (k : nat) :
  count sep c = 0 ->
  Forall (fun x => count x c = k) l ->
  count (join sep l) c = k * List.length l.
Proof.
  intros Hsep H. induction H as [|x l Hx Hl IH]; [simpl; lia|].
  destruct l as [|y r].
  - simpl. lia.
  - change (join sep (x :: y :: r)) with (x ++ sep ++ join sep (y :: r)).
    rewrite !count_app, Hx, Hsep, IH. simpl List.length. lia.
Qed.

(** X9.  With at least one piece that is not blank,
    [itunes_create_playlist] raises nothing of its own and runs one
    command: the script is built from the sanitised name and, in their
    order and with repetitions, the non-blank pieces stripped and then
    sanitised, each in a condition [name is], joined by [ or ]. *)
Theorem itunes_create_playlist_runs (name songs : str) (w : world)
    (pieces : list str) :
  split songs (lit ",") = Ok pieces ->
  Exists (fun p => blank p = false) pieces ->
  exists n song_list,
    sanitize_query name = Ok n /\
    Forall2 (fun p s => sanitize_query (strip p) = Ok s)
      (filter (fun p => negb (blank p)) pieces) song_list /\
    song_list <> [] /\
    itunes_create_playlist sys name songs w
    = run_applescript sys
        (itunes_create_playlist_script n
           (join (lit " or ")
              (map (fun s => lit "name is " ++ dq ++ s ++ dq) song_list))) w.
Proof.
  intros Hsplit Hex. apply Ok_inj in Hsplit. subst pieces.
  rewrite itunes_create_playlist_eq.
  set (pieces := split_from (lit ",") 0 [] songs) in *.
  destruct (filter (fun s => negb (blank s)) pieces) as [|p l] eqn:Ef.
  - exfalso. apply not_blank_filter in Ef.
    apply Exists_exists in Hex as [x [Hin Hx]].
    rewrite Forall_forall in Ef. specialize (Ef _ Hin). congruence.
  - exists (firstn 100 (filter allowed name)),
           (map (fun s => firstn 100 (filter allowed (strip s))) (p :: l)).
    split; [apply sanitize_query_eq|].
    split; [|split; [discriminate | reflexivity]].
    generalize (p :: l). intros l'.
    induction l' as [|x l' IH]; constructor; [apply sanitize_query_eq | exact IH].
Qed.

(** X10.  [itunes_create_playlist] runs no command exactly when [songs]
    is made of commas and whitespace only. *)
Theorem itunes_create_playlist_idle_iff (name songs : str) (w : world) :
  snd (itunes_create_playlist sys name songs w) = w <->
  Forall (fun c => c = 44%N \/ isspace c = true) songs.
Proof.
  rewrite itunes_create_playlist_eq.
  destruct (filter _ _) as [|p l] eqn:Ef.
  - split; [intros _ | reflexivity].
    apply not_blank_filter in Ef. apply blank_pieces in Ef. tauto.
  - rewrite run_applescript_runs_once. split.
    + intros H. now apply one_more_is_more in H.
    + intros H.
      assert (Hb : Forall (fun q => blank q = true) (split_from (lit ",") 0 [] songs))
        by (apply blank_pieces; now split).
      apply not_blank_filter in Hb. congruence.
Qed.

(** X11.  Whatever the name and the songs, a script
    [itunes_create_playlist] runs has the template's ten double quotes
    and two for each non-blank piece, and the template's two backslashes:
    no argument adds a quote or a backslash of its own. *)
Theorem itunes_create_playlist_quotes (name songs : str) (w : world) (c : call) :
  snd (itunes_create_playlist sys name songs w) = w ++ [c] ->
  exists script,
    c = osascript script /\
    count script DQUOTE
    = 10 + 2 * List.length
               (filter (fun p => negb (blank p)) (split_from (lit ",") 0 [] songs)) /\
    count script BACKSLASH = 2.
Proof.
  rewrite itunes_create_playlist_eq.
  destruct (filter _ _) as [|p l] eqn:Ef.
  - intros H. symmetry in H. now apply one_more_is_more in H.
  - rewrite run_applescript_runs_once. intros H.
    apply app_inv_head, single_inj in H. subst c.
    eexists. split; [reflexivity|].
    set (names := map (fun s => firstn 100 (filter allowed (strip s))) (p :: l)).
    assert (Hlen : List.length names = List.length (p :: l))
      by apply length_map.
    assert (Hfree : forall k, allowed k = false ->
              Forall (fun x => count x k = 0) names).
    { intros k Hk. apply Forall_forall. intros x Hx.
      apply in_map_iff in Hx as [s [<- _]].
      apply count_absent, allowed_excludes; [exact Hk | apply sanitized_allowed]. }
    assert (Hname : forall k, allowed k = false ->
              count (firstn 100 (filter allowed name)) k = 0).
    { intros k Hk.
      apply count_absent, allowed_excludes; [exact Hk | apply sanitized_allowed]. }
    assert (Hcond : forall k n, allowed k = false ->
              count (lit " or ") k = 0 ->
              count (lit "name is ") k = 0 -> count dq k = n ->
              count (join (lit " or ")
                       (map (fun s => lit "name is " ++ dq ++ s ++ dq) names)) k
              = (n + n) * List.length names).
    { intros k n Hk Hsep Hlit Hq. rewrite <- (length_map
        (fun s => lit "name is " ++ dq ++ s ++ dq) names).
      apply count_join; [exact Hsep|].
      apply Forall_forall. intros x Hx.
      apply in_map_iff in Hx as [s [<- Hs]].
      specialize (Hfree k Hk). rewrite Forall_forall in Hfree.
      rewrite !count_app, Hlit, Hq, (Hfree _ Hs). lia. }
    unfold itunes_create_playlist_script.
    rewrite !count_app.
    rewrite (Hcond DQUOTE 1), (Hcond BACKSLASH 0) by reflexivity.
    rewrite !(Hname DQUOTE eq_refl), !(Hname BACKSLASH eq_refl), Hlen.
    split; simpl; lia.
Qed.

End PlaylistMore.

Section Requests.
Context {U : UnicodeDB}.
Variable sys : subprocess.os.

Lemma split_no_comma (s cur : str) :
  Forall (fun c => c <> 44%N) s ->
  split_from (lit ",") 0 cur s = [rev cur ++ s].
Proof.
  intros H. revert cur. induction H as [|c s Hc _ IH]; intros cur.
  - simpl. now rewrite app_nil_r.
  - cbn [split_from]. change (startswith (c :: s) (lit ","))
      with ((44 =? c)%N && true).
    destruct (N.eqb_spec 44 c) as [E|_]; [now elim Hc|].
    cbn [andb]. rewrite IH. simpl. now rewrite <- app_assoc.
Qed.

Lemma space_allowed (c : char) : isspace c = true -> allowed c = true.
Proof. unfold allowed. intros ->. now rewrite orb_true_r. Qed.

Lemma filter_none (s : str) :
  Forall (fun c => allowed c = false) s -> filter allowed s = [].
Proof. induction 1 as [|c l Hc _ IH]; simpl; [reflexivity|]. now rewrite Hc. Qed.

(** X12.  A song name made only of disallowed characters is not dropped:
    for a non-empty [songs] without comma and without allowed character,
    [itunes_create_playlist] does not answer [No songs provided.] but
    runs the script with the one condition [name is] the empty string. *)
Theorem itunes_create_playlist_empty_name (name songs : str) (w : world) :
  songs <> [] ->
  Forall (fun c => c <> 44%N) songs ->
  Forall (fun c => allowed c = false) songs ->
  exists n,
    sanitize_query name = Ok n /\
    itunes_create_playlist sys name songs w
    = run_applescript sys
        (itunes_create_playlist_script n (lit "name is " ++ dq ++ dq)) w.
Proof.
  intros Hne Hcomma Hdis.
  exists (firstn 100 (filter allowed name)).
  split; [apply sanitize_query_eq|].
  rewrite itunes_create_playlist_eq, (split_no_comma [] Hcomma).
  assert (Hb : blank songs = false).
  { destruct songs as [|c t]; [now elim Hne|].
    apply Forall_inv in Hdis. unfold blank. simpl.
    destruct (isspace c) eqn:E; [|reflexivity].
    apply space_allowed in E. congruence. }
  cbn [rev app filter]. rewrite Hb. cbn [negb map].
  assert (Hs : filter allowed (strip songs) = []).
  { apply filter_none.
    destruct (strip_cut songs) as [a [b [Hab _]]].
    rewrite Hab in Hdis.
    apply Forall_app in Hdis as [_ Hdis].
    now apply Forall_app in Hdis as [Hdis _]. }
  rewrite Hs. reflexivity.
Qed.

(** Every tool either answers [No songs provided.] at once or hands a
    script to [run_applescript]. *)
Lemma call_tool_shape (r : request) (w : world) :
  (exists script, call_tool sys r w = run_applescript sys script w) \/
  (call_tool sys r w = (Ok (lit "No songs provided."), w) /\
   exists name songs, r = CreatePlaylist name songs).
Proof.
  destruct r as [| | | |query|song|name songs| | |]; cbn [call_tool].
  1-4, 8-10: left; eexists; reflexivity.
  - left. eexists. apply itunes_search_eq.
  - left. eexists. apply itunes_play_song_eq.
  - rewrite itunes_create_playlist_eq.
    destruct (filter _ _).
    + right. split; [reflexivity|]. now exists name, songs.
    + left. eexists. reflexivity.
Qed.

(** X13.  No tool lets an exception of class [Exception] through to the
    server: an exception that leaves a tool is outside [Exception]. *)
Theorem call_tool_raises_only_outside (r : request) (w : world) (e : exn) :
  fst (call_tool sys r w) = Raise e ->
  issubclass (exn_class e) Exception = false.
Proof.
  destruct (call_tool_shape r w) as [[script ->] | [-> _]].
  - apply run_applescript_raises_only_outside.
  - discriminate.
Qed.

(** X14.  A tool runs one command, [osascript -e] with a script and 30
    seconds, and nothing else; the one exception is
    [itunes_create_playlist] answering [No songs provided.], which runs
    none. *)
Theorem call_tool_one_command (r : request) (w : world) :
  (exists script, snd (call_tool sys r w) = w ++ [osascript script]) \/
  (snd (call_tool sys r w) = w /\
   fst (call_tool sys r w) = Ok (lit "No songs provided.") /\
   exists name songs, r = CreatePlaylist name songs).
Proof.
  destruct (call_tool_shape r w) as [[script ->] | [-> Hr]].
  - left. exists script. apply run_applescript_runs_once.
  - right. now repeat split.
Qed.

End Requests.

(** [itunes_search_nothing_allowed] at work. *)
Lemma itunes_search_nothing_allowed_witness :
  Forall (fun c => allowed (U := ascii_only) c = false) (lit "?!") /\
  itunes_search (U := ascii_only) no_osascript (lit "?!") []
    = run_applescript (U := ascii_only) no_osascript (itunes_search_script []) [].
Proof.
  assert (H : Forall (fun c => allowed (U := ascii_only) c = false) (lit "?!"))
    by (repeat constructor).
  split; [exact H|].
  exact (itunes_search_nothing_allowed (U := ascii_only) no_osascript [] H).
Defined.

(** [itunes_create_playlist_runs] at work: three pieces, the middle one
    blank, one with a quote in it. *)
Lemma itunes_create_playlist_runs_witness :
  split (lit "Hey Jude, , Don't Stop ") (lit ",")
    = Ok [lit "Hey Jude"; lit " "; lit " Don't Stop "] /\
  Exists (fun p => blank (U := ascii_only) p = false)
    [lit "Hey Jude"; lit " "; lit " Don't Stop "] /\
  exists n song_list,
    sanitize_query (U := ascii_only) (lit "Mix") = Ok n /\
    Forall2 (fun p s =>
               sanitize_query (U := ascii_only) (strip (U := ascii_only) p) = Ok s)
      [lit "Hey Jude"; lit " Don't Stop "] song_list /\
    song_list <> [] /\
    itunes_create_playlist (U := ascii_only) (exits_with 0 [] []) (lit "Mix")
      (lit "Hey Jude, , Don't Stop ") []
    = run_applescript (U := ascii_only) (exits_with 0 [] [])
        (itunes_create_playlist_script n
           (join (lit " or ")
              (map (fun s => lit "name is " ++ dq ++ s ++ dq) song_list))) [].
Proof.
  assert (H : Exists (fun p => blank (U := ascii_only) p = false)
                [lit "Hey Jude"; lit " "; lit " Don't Stop "])
    by (apply Exists_cons_hd; reflexivity).
  split; [reflexivity|]. split; [exact H|].
  exact (itunes_create_playlist_runs (U := ascii_only) (exits_with 0 [] [])
           (lit "Mix") (songs := lit "Hey Jude, , Don't Stop ") []
           (pieces := [lit "Hey Jude"; lit " "; lit " Don't Stop "]) eq_refl H).
Defined.

(** [itunes_create_playlist_quotes] at work: two songs, fourteen double
    quotes. *)
Lemma itunes_create_playlist_quotes_witness :
  exists script,
    osascript (itunes_create_playlist_script (lit "Mix")
      (lit "name is " ++ dq ++ lit "a" ++ dq ++ lit " or name is "
         ++ dq ++ lit "b" ++ dq)) = osascript script /\
    count script DQUOTE = 14 /\ count script BACKSLASH = 2.
Proof.
  exact (itunes_create_playlist_quotes (U := ascii_only) (exits_with 0 [] [])
           (lit "Mix") (lit "a,b") []
           (osascript (itunes_create_playlist_script (lit "Mix")
              (lit "name is " ++ dq ++ lit "a" ++ dq ++ lit " or name is "
                 ++ dq ++ lit "b" ++ dq)))
           eq_refl).
Defined.

(** [itunes_create_playlist_empty_name] at work. *)
Lemma itunes_create_playlist_empty_name_witness :
  exists n,
    sanitize_query (U := ascii_only) (lit "Mix") = Ok n /\
    itunes_create_playlist (U := ascii_only) no_osascript (lit "Mix") (lit "???") []
    = run_applescript (U := ascii_only) no_osascript
        (itunes_create_playlist_script n (lit "name is " ++ dq ++ dq)) [].
Proof.
  apply (itunes_create_playlist_empty_name (U := ascii_only) no_osascript).
  - discriminate.
  - repeat constructor; discriminate.
  - repeat constructor.
Defined.

(** [call_tool_raises_only_outside] at work: an interrupt during
    [itunes_play]. *)
Lemma call_tool_raises_only_outside_witness :
  fst (call_tool (U := ascii_only) interrupted Play [])
    = Raise {| exn_class := KeyboardInterrupt; exn_str := [] |} /\
  issubclass KeyboardInterrupt Exception = false.
Proof.
  split; [reflexivity|].
  exact (call_tool_raises_only_outside (U := ascii_only) interrupted Play [] eq_refl).
Defined.
